(** * A shallow model of the Effect runtime used by the learn-effect examples

    The repository is a curriculum: its examples ([examples.ts] and the
    snippets of the module documents) call the [effect] library, whose
    runtime is not part of the repository.  The runtime operations the
    examples use are therefore modelled from the spec (sections 4.1, 4.2,
    4.4, 4.5 and 4.6), and the examples themselves are embedded over that
    model the way they are written.

    A description is a function of
    - the time at which an external interruption is delivered to the fiber
      running it (if any), and
    - the observable world (a virtual clock in milliseconds and the lines
      printed on the console),
    returning its outcome, the finalizers it registered on the enclosing
    scope (most recent first) and the new world. *)

From Stdlib Require Import String List Arith Lia Floats DecimalString.
Import ListNotations.

Local Set Warnings "-abstract-large-number".

Module Effect.

(** ** Worlds, outcomes and descriptions *)

Record World := mkWorld { clock : nat; log : list string }.

Definition console_log (msg : string) (w : World) : World :=
  mkWorld (clock w) (log w ++ [msg]).

Definition advance (ms : nat) (w : World) : World :=
  mkWorld (clock w + ms) (log w).

Definition set_clock (t : nat) (w : World) : World :=
  mkWorld t (log w).

(** Modelled from the spec: the outcome of running a description (section
    4.1 and section 7: success, expected failure, defect, and interruption,
    the third outcome class that ordinary handlers do not catch). *)
Inductive Exit (E A : Type) : Type :=
| Success (a : A)
| Failure (e : E)
| Die (defect : string)
| Interrupted.
Arguments Success {E A} a.
Arguments Failure {E A} e.
Arguments Die {E A} defect.
Arguments Interrupted {E A}.

Definition exit_map {E A B} (f : A -> B) (ex : Exit E A) : Exit E B :=
  match ex with
  | Success a => Success (f a)
  | Failure e => Failure e
  | Die d => Die d
  | Interrupted => Interrupted
  end.

(** A release action registered on a scope: it runs on a world and ends
    with its own outcome (a release cannot fail with an expected error,
    but it can die). *)
Definition Finalizer := World -> Exit Empty_set unit * World.

(** The virtual time at which an interruption reaches the running fiber. *)
Definition Interruption := option nat.

(** Modelled from the spec: a computation description, Effect<A, E, R>
    (section 3, "Computation description"); the Scope requirement is the
    list of finalizers the description registers. *)
Definition Effect (E A : Type) : Type :=
  Interruption -> World -> Exit E A * list Finalizer * World.

(** ** Constructors (section 4.1) *)

(** Modelled from the spec: [Effect.succeed]. *)
Definition succeed {E A} (a : A) : Effect E A :=
  fun _ w => (Success a, [], w).

(** Modelled from the spec: [Effect.fail]. *)
Definition fail {E A} (e : E) : Effect E A :=
  fun _ w => (Failure e, [], w).

(** Modelled from the spec: [Effect.die]. *)
Definition die {E A} (d : string) : Effect E A :=
  fun _ w => (Die d, [], w).

(** Modelled from the spec: [Effect.sync], lifting an infallible
    synchronous thunk that may print to the console. *)
Definition sync {E A} (thunk : World -> A * World) : Effect E A :=
  fun _ w => let '(a, w') := thunk w in (Success a, [], w').

(** [Console.log] *)
Definition Console_log {E} (msg : string) : Effect E unit :=
  sync (fun w => (tt, console_log msg w)).

(** ** Composition (section 4.1) *)

(** Modelled from the spec: [Effect.flatMap]; the second stage runs only
    when the first succeeds, and the finalizers of both stages stay
    registered. *)
Definition flatMap {E A B} (m : Effect E A) (k : A -> Effect E B) : Effect E B :=
  fun intr w =>
    let '(ex, f1, w1) := m intr w in
    match ex with
    | Success a => let '(ex2, f2, w2) := k a intr w1 in (ex2, f2 ++ f1, w2)
    | Failure e => (Failure e, f1, w1)
    | Die d => (Die d, f1, w1)
    | Interrupted => (Interrupted, f1, w1)
    end.

(** [Effect.gen]: each [yield*] is one [flatMap]. *)
Notation "x <- m ;; k" := (flatMap m (fun x => k))
  (at level 61, m at next level, right associativity).
Notation "m ;;; k" := (flatMap m (fun _ => k))
  (at level 61, right associativity).

(** Modelled from the spec: [Effect.map]. *)
Definition map {E A B} (f : A -> B) (m : Effect E A) : Effect E B :=
  fun intr w => let '(ex, fs, w1) := m intr w in (exit_map f ex, fs, w1).

(** ** The typed error channel (section 4.2) *)

(** Modelled from the spec: [Effect.catchAll]. *)
Definition catchAll {E E' A} (h : E -> Effect E' A) (m : Effect E A) : Effect E' A :=
  fun intr w =>
    let '(ex, f1, w1) := m intr w in
    match ex with
    | Success a => (Success a, f1, w1)
    | Failure e => let '(ex2, f2, w2) := h e intr w1 in (ex2, f2 ++ f1, w2)
    | Die d => (Die d, f1, w1)
    | Interrupted => (Interrupted, f1, w1)
    end.

(** Modelled from the spec: [Effect.catchTag]; [tag] reads the
    discriminant field [_tag] of an error value. *)
Definition catchTag {E A} (tag : E -> string) (t : string)
    (h : E -> Effect E A) (m : Effect E A) : Effect E A :=
  fun intr w =>
    let '(ex, f1, w1) := m intr w in
    match ex with
    | Failure e =>
        if String.eqb (tag e) t
        then let '(ex2, f2, w2) := h e intr w1 in (ex2, f2 ++ f1, w2)
        else (Failure e, f1, w1)
    | _ => (ex, f1, w1)
    end.

(** ** Time and interruption (sections 4.5 and 5) *)

(** Modelled from the spec: [Effect.sleep]; sleeping is a yield point, so
    an interruption due before the sleep ends stops the fiber at that
    time. *)
Definition sleep {E} (ms : nat) : Effect E unit :=
  fun intr w =>
    match intr with
    | Some t =>
        if clock w + ms <=? t then (Success tt, [], advance ms w)
        else (Interrupted, [], set_clock (Nat.max (clock w) t) w)
    | None => (Success tt, [], advance ms w)
    end.

(** Modelled from the spec: [Effect.delay]. *)
Definition delay {E A} (m : Effect E A) (ms : nat) : Effect E A :=
  sleep ms ;;; m.

(** ** Scopes (section 4.4) *)

(** A release action runs uninterruptibly and keeps its outcome. *)
Definition run_finalizer (rel : Effect Empty_set unit) : Finalizer :=
  fun w => let '(ex, _, w') := rel None w in (ex, w').

(** Modelled from the spec: [Effect.acquireRelease]; the acquisition is
    uninterruptible and, once it succeeds, the release applied to the
    acquired value is registered on the enclosing scope. *)
Definition acquireRelease {E A} (acquire : Effect E A)
    (release : A -> Effect Empty_set unit) : Effect E A :=
  fun _ w =>
    let '(ex, f1, w1) := acquire None w in
    match ex with
    | Success a => (Success a, run_finalizer (release a) :: f1, w1)
    | Failure e => (Failure e, f1, w1)
    | Die d => (Die d, f1, w1)
    | Interrupted => (Interrupted, f1, w1)
    end.

(** Closing a scope runs all its finalizers, most recently registered
    first (the list is kept newest first), and keeps the first failure
    among them; [first] is the outcome kept so far. *)
Fixpoint run_finalizers (fins : list Finalizer) (first : Exit Empty_set unit) (w : World)
    : Exit Empty_set unit * World :=
  match fins with
  | [] => (first, w)
  | fin :: rest =>
      let '(ex, w1) := fin w in
      run_finalizers rest (match first with Success _ => ex | _ => first end) w1
  end.

(** The world after closing a scope. *)
Definition close_scope (fins : list Finalizer) (w : World) : World :=
  snd (run_finalizers fins (Success tt) w).

(** The first failure of a scope's finalizers, [Success tt] if none fails. *)
Definition finalizers_exit (fins : list Finalizer) (w : World) : Exit Empty_set unit :=
  fst (run_finalizers fins (Success tt) w).

(** The outcome a scope reports: the description's own outcome, except
    that when the description succeeded a finalizer failure is reported
    instead (section 4.4: finalizer failures are secondary unless no
    primary failure exists). *)
Definition merge_exit {E A} (ex : Exit E A) (fex : Exit Empty_set unit) : Exit E A :=
  match ex with
  | Success a =>
      match fex with
      | Success _ => Success a
      | Failure e => match e with end
      | Die d => Die d
      | Interrupted => Interrupted
      end
  | _ => ex
  end.

(** Modelled from the spec: [Effect.scoped]; a fresh scope is opened, the
    description runs, the scope is closed on every exit path and the
    description's outcome, merged with the finalizers' outcome, is
    reported. *)
Definition scoped {E A} (m : Effect E A) : Effect E A :=
  fun intr w =>
    let '(ex, fins, w1) := m intr w in
    (merge_exit ex (finalizers_exit fins w1), [], close_scope fins w1).

(** ** Schedules and retry (section 4.6) *)

Inductive Decision := Continue (delay_ms : nat) | Done.

(** Modelled from the spec: a schedule decides, from the number of
    retries already made and the last failure, whether to go on and after
    which delay. *)
Definition Schedule (E : Type) : Type := nat -> E -> Decision.

(** Modelled from the spec: [Schedule.recurs]. *)
Definition recurs {E} (n : nat) : Schedule E :=
  fun k _ => if k <? n then Continue 0 else Done.

(** Modelled from the spec: [Schedule.spaced]. *)
Definition spaced {E} (ms : nat) : Schedule E :=
  fun _ _ => Continue ms.

(** Modelled from the spec: [Schedule.intersect]; continues while both
    continue, with the longer delay. *)
Definition intersect {E} (s1 s2 : Schedule E) : Schedule E :=
  fun k e =>
    match s1 k e, s2 k e with
    | Continue d1, Continue d2 => Continue (Nat.max d1 d2)
    | _, _ => Done
    end.

(** Modelled from the spec: the retry driver.  [fuel] bounds the number
    of executions the model unfolds; the runtime's loop itself is
    unbounded. *)
Fixpoint retry_loop {E A} (fuel attempt : nat) (m : Effect E A)
    (sched : Schedule E) : Effect E A :=
  match fuel with
  | O => fun _ w => (Die "retry: fuel exhausted", [], w)
  | S fuel' => fun intr w =>
      let '(ex, f1, w1) := m intr w in
      match ex with
      | Failure e =>
          match sched attempt e with
          | Continue d =>
              let '(ex2, f2, w2) :=
                (sleep d ;;; retry_loop fuel' (S attempt) m sched) intr w1 in
              (ex2, f2 ++ f1, w2)
          | Done => (Failure e, f1, w1)
          end
      | _ => (ex, f1, w1)
      end
  end.

(** [Effect.retry] *)
Definition retry {E A} (fuel : nat) (m : Effect E A) (sched : Schedule E) : Effect E A :=
  retry_loop fuel 0 m sched.

(** ** Timeout (section 4.5) *)

(** Modelled from the spec: [Effect.timeout]; the description races a
    timer due [ms] from now.  When the timer fires first the description
    is interrupted and the absence marker [None] is reported; otherwise
    the description's outcome is reported with its value wrapped in
    [Some].  An outside interruption due no later than the timer wins over
    it. *)
Definition timeout {E A} (m : Effect E A) (ms : nat) : Effect E (option A) :=
  fun intr w =>
    let timer := clock w + ms in
    let timer_first := match intr with None => true | Some t => timer <? t end in
    let '(ex, f1, w1) := m (if timer_first then Some timer else intr) w in
    match ex with
    | Interrupted => (if timer_first then Success None else Interrupted, f1, w1)
    | _ => (exit_map Some ex, f1, w1)
    end.

(** ** Forking and interrupting (section 4.5) *)

(** Modelled from the spec: the pattern [const fiber = yield* Effect.fork(m);
    yield* Effect.sleep(ms); yield* Fiber.interrupt(fiber)].  The forked
    fiber runs [m] with an interruption due [ms] from now; the parent's
    [Fiber.interrupt] waits until the fiber has finished its finalizers
    and returns the fiber's outcome.  If the parent is itself interrupted
    while sleeping, the child is interrupted along with it. *)
Definition fork_sleep_interrupt {E E' A} (m : Effect E A) (ms : nat)
    : Effect E' (Exit E A) :=
  fun intr w =>
    let t := clock w + ms in
    let parent_first := match intr with Some t0 => t0 <? t | None => false end in
    let '(ex, fins, w1) := m (if parent_first then intr else Some t) w in
    if parent_first then (Interrupted, fins, w1)
    else (Success ex, fins, set_clock (Nat.max t (clock w1)) w1).

(** ** Racing (section 4.5) *)

Definition is_success {E A} (ex : Exit E A) : bool :=
  match ex with Success _ => true | _ => false end.

(** The world after two fibers that both started from [w] ended in [wa]
    and [wb]: the later of their clocks, and the lines of [wa] followed by
    the lines [wb] added (the model keeps each fiber's lines together). *)
Definition join_worlds (w wa wb : World) : World :=
  mkWorld (Nat.max (clock wa) (clock wb)) (log wa ++ skipn (length (log w)) (log wb)).

(** Modelled from the spec: [Effect.race] on the virtual clock.  Both
    sides start from the same world; a side that succeeds wins over one
    that does not, and between two successes the earlier one wins (the
    left one on a tie).  The loser, if it was still running when the
    winner finished, is run again with an interruption due at the
    winner's finishing time.  When neither side succeeds, the race waits
    for both and reports the failure of the one that ended first.  The
    result lists the race's outcome, the left fiber's and the right
    fiber's terminal outcomes, the finalizers and the world. *)
Definition race_run {E A} (m1 m2 : Effect E A) (intr : Interruption) (w : World)
    : Exit E A * Exit E A * Exit E A * list Finalizer * World :=
  let '(ex1, f1, w1) := m1 intr w in
  let '(ex2, f2, w2) := m2 intr w in
  let cut t := match intr with Some t0 => Nat.min t0 t | None => t end in
  let left_wins :=
    let '(ex2', f2', w2') := m2 (Some (cut (clock w1))) w in
    (ex1, ex1, ex2', f2' ++ f1, join_worlds w w1 w2') in
  let right_wins :=
    let '(ex1', f1', w1') := m1 (Some (cut (clock w2))) w in
    (ex2, ex1', ex2, f1' ++ f2, join_worlds w w2 w1') in
  match is_success ex1, is_success ex2 with
  | true, true => if clock w1 <=? clock w2 then left_wins else right_wins
  | true, false =>
      if clock w1 <=? clock w2 then left_wins
      else (ex1, ex1, ex2, f2 ++ f1, join_worlds w w2 w1)
  | false, true =>
      if clock w2 <? clock w1 then right_wins
      else (ex2, ex1, ex2, f1 ++ f2, join_worlds w w1 w2)
  | false, false =>
      if clock w1 <=? clock w2 then (ex1, ex1, ex2, f2 ++ f1, join_worlds w w1 w2)
      else (ex2, ex1, ex2, f1 ++ f2, join_worlds w w2 w1)
  end.

(** [Effect.race] *)
Definition race {E A} (m1 m2 : Effect E A) : Effect E A :=
  fun intr w => let '(ex, _, _, fs, w') := race_run m1 m2 intr w in (ex, fs, w').

(** ** Further operations used by the documents *)

(** Modelled from the spec: [Effect.addFinalizer], registering a bare
    cleanup action on the enclosing scope (section 4.4). *)
Definition addFinalizer {E} (fin : unit -> Effect Empty_set unit) : Effect E unit :=
  fun _ w => (Success tt, [run_finalizer (fin tt)], w).

(** Modelled from the spec: [Effect.catchTags], the batch form of
    [catchTag]: the handler registered for the failure's tag, if any,
    takes over (section 4.2). *)
Definition catchTags {E A} (tag : E -> string)
    (handlers : list (string * (E -> Effect E A))) (m : Effect E A) : Effect E A :=
  fun intr w =>
    let '(ex, f1, w1) := m intr w in
    match ex with
    | Failure e =>
        match find (fun p => String.eqb (fst p) (tag e)) handlers with
        | Some (_, h) => let '(ex2, f2, w2) := h e intr w1 in (ex2, f2 ++ f1, w2)
        | None => (Failure e, f1, w1)
        end
    | _ => (ex, f1, w1)
    end.

(** [Effect.orElseSucceed]: a catch-all whose replacement always
    succeeds (section 4.2). *)
Definition orElseSucceed {E E' A} (fallback : unit -> A) (m : Effect E A) : Effect E' A :=
  catchAll (fun _ => succeed (fallback tt)) m.

(** Modelled from the spec: [Effect.mapError] (section 4.2). *)
Definition mapError {E E' A} (f : E -> E') (m : Effect E A) : Effect E' A :=
  fun intr w =>
    let '(ex, fs, w1) := m intr w in
    match ex with
    | Success a => (Success a, fs, w1)
    | Failure e => (Failure (f e), fs, w1)
    | Die d => (Die d, fs, w1)
    | Interrupted => (Interrupted, fs, w1)
    end.

(** [Effect.tapError]: runs [f] on an expected failure, then reports the
    original failure. *)
Definition tapError {E A} (f : E -> Effect E unit) (m : Effect E A) : Effect E A :=
  catchAll (fun e => f e ;;; fail e) m.

(** [Effect.log], printing its message on a line of its own. *)
Definition log_line {E} (msg : string) : Effect E unit :=
  sync (fun w => (tt, console_log msg w)).

(** [Date.now()], read on the virtual clock. *)
Definition now {E} : Effect E nat := sync (fun w => (clock w, w)).

(** Modelled from the spec: [Schedule.whileInput], a conditional filter:
    inputs failing the predicate stop the schedule at once (section 4.6). *)
Definition whileInput {E} (p : E -> bool) (s : Schedule E) : Schedule E :=
  fun k e => if p e then s k e else Done.

(** Modelled from the spec: [Schedule.exponential], a delay that doubles
    on every recurrence, starting from [base] (section 4.6). *)
Definition exponential {E} (base : nat) : Schedule E :=
  fun k _ => Continue (base * 2 ^ k).

(** Modelled from the spec: the repeat driver, the mirror of [retry_loop]:
    a success is fed to the schedule, which decides whether to run again;
    a failure stops at once; when the schedule stops, the last success is
    reported (section 4.6). *)
Fixpoint repeat_loop {E A} (fuel attempt : nat) (m : Effect E A)
    (sched : Schedule A) : Effect E A :=
  match fuel with
  | O => fun _ w => (Die "repeat: fuel exhausted", [], w)
  | S fuel' => fun intr w =>
      let '(ex, f1, w1) := m intr w in
      match ex with
      | Success a =>
          match sched attempt a with
          | Continue d =>
              let '(ex2, f2, w2) :=
                (sleep d ;;; repeat_loop fuel' (S attempt) m sched) intr w1 in
              (ex2, f2 ++ f1, w2)
          | Done => (Success a, f1, w1)
          end
      | _ => (ex, f1, w1)
      end
  end.

(** [Effect.repeat] (named apart from the list function [repeat]) *)
Definition repeat_effect {E A} (fuel : nat) (m : Effect E A) (sched : Schedule A) : Effect E A :=
  repeat_loop fuel 0 m sched.

(** ** Running descriptions (section 4.1) *)

Definition initial_world : World := mkWorld 0 [].

(** Modelled from the spec: [Effect.runSyncExit]. *)
Definition runSyncExit {E A} (m : Effect E A) : Exit E A :=
  let '(ex, _, _) := m None initial_world in ex.

(** The console output of a synchronous run. *)
Definition runSyncLog {E A} (m : Effect E A) : list string :=
  let '(_, _, w) := m None initial_world in log w.

(** Modelled from the spec: [Effect.runSync]; it returns the success value
    ([inl]) or throws the outcome that stopped the run ([inr]). *)
Definition runSync {E A} (m : Effect E A) : A + Exit E A :=
  match runSyncExit m with
  | Success a => inl a
  | ex => inr ex
  end.

End Effect.

(** * The examples of the curriculum *)

Module Examples.
Import Effect.

Local Open Scope string_scope.

(** ** examples.ts, section 1: success and failure *)

(** [const simpleSuccess = Effect.succeed(42)] *)
Definition simpleSuccess : Effect Empty_set nat := succeed 42.

(** [const simpleFailure = Effect.fail("Something went wrong")] *)
Definition simpleFailure : Effect string nat := fail "Something went wrong".

(** ** examples.ts, section 2: error tracking *)

(** [class DivisionError { readonly _tag = "DivisionError";
    constructor(readonly message: string) {} }] *)
Record DivisionError := mkDivisionError { message : string }.

Definition DivisionError_tag (_ : DivisionError) : string := "DivisionError".

(** [const divide = (a: number, b: number): Effect.Effect<number, DivisionError> =>
      b === 0 ? Effect.fail(new DivisionError("Cannot divide by zero"))
              : Effect.succeed(a / b)]
    JavaScript numbers are IEEE doubles, [===] on them is IEEE equality. *)
Definition divide (a b : float) : Effect DivisionError float :=
  if PrimFloat.eqb b 0%float
  then fail (mkDivisionError "Cannot divide by zero")
  else succeed (PrimFloat.div a b).

(** ** examples.ts, section 4: the numeric stages of [transformed]
    [pipe(Effect.succeed(5), Effect.map(x => x * 2), Effect.map(x => x + 3), ...)] *)
Definition double (x : float) : float := PrimFloat.mul x 2%float.
Definition plus_three (x : float) : float := PrimFloat.add x 3%float.

Definition transformed_numeric : Effect Empty_set float :=
  map plus_three (map double (succeed 5%float)).

(** ** 04-resource-management.md: [resource], [program], [programWithError] *)

Record ResourceData := mkResourceData { data : string }.

(** [Effect.acquireRelease(Effect.sync(() => { console.log("Opening resource");
      return { data: "resource data" } }),
      (resource) => Effect.sync(() => { console.log("Closing resource") }))] *)
Definition open_resource {E} : Effect E ResourceData :=
  sync (fun w => (mkResourceData "resource data", console_log "Opening resource" w)).

Definition close_resource (_ : ResourceData) : Effect Empty_set unit :=
  sync (fun w => (tt, console_log "Closing resource" w)).

Definition resource {E} : Effect E ResourceData :=
  acquireRelease open_resource close_resource.

(** [Effect.scoped(Effect.gen(function* () { const r = yield* resource;
      console.log("Using:", r.data); return r.data }))] *)
Definition resource_program : Effect Empty_set string :=
  scoped (
    r <- resource ;;
    sync (fun w => (tt, console_log ("Using: " ++ data r) w)) ;;;
    succeed (data r)).

(** [Effect.scoped(Effect.gen(function* () { const r = yield* resource;
      console.log("Using resource"); yield* Effect.fail("Boom!"); return r.data }))] *)
Definition use_with_error (r : ResourceData) : Effect string string :=
  sync (fun w => (tt, console_log "Using resource" w)) ;;;
  fail (A := unit) "Boom!" ;;;
  succeed (data r).

Definition programWithError : Effect string string :=
  scoped (r <- resource ;; use_with_error r).

(** ** 04-resource-management.md: multiple resources *)

Record DbHandle := mkDbHandle { db : bool }.
Record FileHandle := mkFileHandle { file : bool }.

Definition dbConnection {E} : Effect E DbHandle :=
  acquireRelease
    (sync (fun w => (mkDbHandle true, console_log "1. Opening DB" w)))
    (fun _ => sync (fun w => (tt, console_log "4. Closing DB" w))).

Definition fileHandle {E} : Effect E FileHandle :=
  acquireRelease
    (sync (fun w => (mkFileHandle true, console_log "2. Opening File" w)))
    (fun _ => sync (fun w => (tt, console_log "3. Closing File" w))).

Definition two_resources_program : Effect Empty_set (DbHandle * FileHandle) :=
  scoped (
    d <- dbConnection ;;
    f <- fileHandle ;;
    sync (fun w => (tt, console_log "Using both resources" w)) ;;;
    succeed (d, f)).

(** ** FlatMap chaining (examples.ts, section 5) *)

Record User := mkUser { user_id : nat; user_name : string }.
Record Post := mkPost { post_id : nat; title : string; userId : nat }.

(** [const getUserPosts = (userId) => Effect.succeed([
      { id: 101, title: "First post", userId }, { id: 102, title: "Second post", userId }])] *)
Definition getUserPosts {E} (uid : nat) : Effect E (list Post) :=
  succeed [mkPost 101 "First post" uid; mkPost 102 "Second post" uid].

(** [pipe(getUser, Effect.flatMap(user => pipe(getUserPosts(user.id),
      Effect.map(posts => ({ user, posts })))))], for any [getUser]. *)
Definition userWithPosts_from {E} (getUser : Effect E User) : Effect E (User * list Post) :=
  flatMap getUser (fun user => map (fun posts => (user, posts)) (getUserPosts (user_id user))).

(** [const getUser = Effect.succeed({ id: 1, name: "Alice" })] *)
Definition userWithPosts {E} : Effect E (User * list Post) :=
  userWithPosts_from (succeed (mkUser 1 "Alice")).

End Examples.

Module DocExamples.
Import Effect Examples.
Local Open Scope string_scope.

(** ** 05-concurrency.md: cleanup on interruption *)

(** [const taskWithCleanup = Effect.acquireRelease(
      Effect.sync(() => console.log("Acquired")),
      () => Effect.sync(() => console.log("Cleaned up!")))] *)
Definition taskWithCleanup {E} : Effect E unit :=
  acquireRelease
    (sync (fun w => (tt, console_log "Acquired" w)))
    (fun _ => sync (fun w => (tt, console_log "Cleaned up!" w))).

(** [Effect.scoped(Effect.gen(function* () { yield* taskWithCleanup;
      yield* Effect.sleep("10 seconds") }))] *)
Definition scoped_task {E} : Effect E unit :=
  scoped (taskWithCleanup ;;; sleep 10000).

(** [Effect.gen(function* () { const fiber = yield* Effect.fork(scoped);
      yield* Effect.sleep("1 second"); yield* Fiber.interrupt(fiber) })] *)
Definition interrupt_program : Effect Empty_set (Exit Empty_set unit) :=
  fork_sleep_interrupt scoped_task 1000.

(** ** 04-resource-management.md: handling errors by tag *)

Inductive FetchError := NetworkError | TimeoutError | NotFoundError.

Definition FetchError_tag (e : FetchError) : string :=
  match e with
  | NetworkError => "NetworkError"
  | TimeoutError => "TimeoutError"
  | NotFoundError => "NotFoundError"
  end.

(** [const fetchData = Effect.fail(new NetworkError() as NetworkError | TimeoutError | NotFoundError)] *)
Definition fetchData : Effect FetchError string := fail NetworkError.

(** [pipe(fetchData, Effect.catchTag("NetworkError", () => Effect.succeed({ fallback: true })),
      Effect.catchTag("TimeoutError", () => Effect.succeed({ retry: true })))] *)
Definition handled_from (m : Effect FetchError string) : Effect FetchError string :=
  catchTag FetchError_tag "TimeoutError" (fun _ => succeed "retry")
    (catchTag FetchError_tag "NetworkError" (fun _ => succeed "fallback") m).

Definition handled : Effect FetchError string := handled_from fetchData.

(** ** 06-scheduling.md: retrying a flaky request *)

(** [Effect.tryPromise({ try: () => fetch("https://api.example.com/flaky"),
      catch: () => new NetworkError() })], for a server that never answers:
    every execution prints one request line and fails. *)
Definition unreliable : Effect FetchError string :=
  sync (fun w => (tt, console_log "GET https://api.example.com/flaky" w)) ;;;
  fail NetworkError.

(** [Effect.retry(unreliable, Schedule.recurs(3))] *)
Definition retried (fuel : nat) : Effect FetchError string :=
  retry fuel unreliable (recurs 3).

(** ** N resources in one scope

    The multiple-resources example generalised to any list of names: the
    resource named [n] prints ["Opening " ++ n] when acquired and
    ["Closing " ++ n] when released, and the [Effect.gen] block yields the
    resources one after the other. *)
Definition named_resource {E} (n : string) : Effect E string :=
  acquireRelease
    (sync (fun w => (n, console_log ("Opening " ++ n) w)))
    (fun _ => sync (fun w => (tt, console_log ("Closing " ++ n) w))).

Fixpoint acquire_all {E} (names : list string) : Effect E (list string) :=
  match names with
  | [] => succeed []
  | n :: rest => x <- named_resource n ;; xs <- acquire_all rest ;; succeed (x :: xs)
  end.

(** ** Checks against the outputs the documents show *)

Example resource_program_output :
  runSyncLog resource_program
  = ["Opening resource"; "Using: resource data"; "Closing resource"].
Proof. reflexivity. Qed.

Example programWithError_output :
  runSyncLog programWithError
  = ["Opening resource"; "Using resource"; "Closing resource"]
  /\ runSyncExit programWithError = Failure "Boom!".
Proof. split; reflexivity. Qed.

Example two_resources_output :
  runSyncLog two_resources_program
  = ["1. Opening DB"; "2. Opening File"; "Using both resources";
     "3. Closing File"; "4. Closing DB"].
Proof. reflexivity. Qed.

Example interrupt_program_output :
  runSyncLog interrupt_program = ["Acquired"; "Cleaned up!"]
  /\ runSyncExit interrupt_program = Success Interrupted.
Proof. split; reflexivity. Qed.

Example handled_output : runSyncExit handled = Success "fallback".
Proof. reflexivity. Qed.

Example retried_output :
  runSyncLog (retried 10) = repeat "GET https://api.example.com/flaky" 4
  /\ runSyncExit (retried 10) = Failure NetworkError.
Proof. split; reflexivity. Qed.

Example divide_outputs :
  runSyncExit (divide 10 2) = Success 5%float
  /\ runSyncExit (divide 10 0) = Failure (mkDivisionError "Cannot divide by zero").
Proof. split; reflexivity. Qed.

End DocExamples.

Module MoreExamples.
Import Effect Examples DocExamples.
Local Open Scope string_scope.

(** [`${n}`] for a non-negative integer [n]. *)
Definition show_nat (n : nat) : string :=
  NilZero.string_of_uint (Nat.to_uint n).

(** ** Catching errors *)

(** 04-resource-management.md, "catchAll":
    [pipe(divide(10, 0), Effect.catchAll((error) => {
       console.log(`Caught: ${error.message}`); return Effect.succeed(0) }))],
    with the operands as parameters. *)
Definition catch_program (a b : float) : Effect Empty_set float :=
  catchAll
    (fun error => sync (fun w => (tt, console_log ("Caught: " ++ message error) w)) ;;;
                  succeed 0%float)
    (divide a b).

(** examples.ts, section 2:
    [pipe(divide(10, 0), Effect.catchAll((error) => Effect.succeed(`Handled: ${error.message}`)))],
    with the operands as parameters; the success type [number | string] is
    the sum [float + string]. *)
Definition handled_divide (a b : float) : Effect Empty_set (float + string) :=
  catchAll (fun error => succeed (inr ("Handled: " ++ message error)))
    (map inl (divide a b)).

(** 04-resource-management.md, "The Problem":
    [function divide(a, b) { if (b === 0) throw new Error("Division by zero"); return a / b }];
    [inr msg] is a thrown [Error(msg)]. *)
Definition divide_throwing (a b : float) : float + string :=
  if PrimFloat.eqb b 0%float then inr "Division by zero" else inl (PrimFloat.div a b).

(** 04-resource-management.md, "catchTags - Handle Multiple at Once",
    applied to any description with the three tagged errors; the success
    value is the [source] field. *)
Definition catchTags_handled (m : Effect FetchError string) : Effect FetchError string :=
  catchTags FetchError_tag
    [("NetworkError", fun _ => succeed "cache");
     ("TimeoutError", fun _ => succeed "retry");
     ("NotFoundError", fun _ => succeed "default")] m.

(** 04-resource-management.md, "Transform Errors":
    [class AppError { constructor(readonly cause: unknown) {} }] and
    [pipe(fetchData, Effect.mapError((error) => new AppError(error)))]. *)
Record AppError := mkAppError { cause : FetchError }.

Definition mapped_from (m : Effect FetchError string) : Effect AppError string :=
  mapError mkAppError m.

(** 04-resource-management.md, "Provide a Fallback Value":
    [pipe(m, Effect.orElseSucceed(() => "default value"))]. *)
Definition withDefault_from {E} (m : Effect E string) : Effect Empty_set string :=
  orElseSucceed (fun _ => "default value") m.

(** ** Looking users up *)

(** 04-resource-management.md, "Expected Errors":
    [class UserNotFoundError { readonly _tag = "UserNotFoundError"; constructor(readonly userId: string) {} }] *)
Record UserNotFoundError := mkUserNotFoundError { userId : string }.

(** [const getUser = (id) => Effect.gen(function* () {
      const user = yield* database.findUser(id);
      if (!user) return yield* Effect.fail(new UserNotFoundError(id));
      return user })]; [findUser] stands for [database.findUser], whose
    "no user" answer is [None]. *)
Definition getUser {U} (findUser : string -> Effect UserNotFoundError (option U))
    (id : string) : Effect UserNotFoundError U :=
  user <- findUser id ;;
  match user with
  | None => fail (mkUserNotFoundError id)
  | Some u => succeed u
  end.

(** part 8, LiveUserServiceLayer:
    [findById: (id) => Effect.gen(function* () {
       const result = yield* db.query(`SELECT * FROM users WHERE id = $1`, [id]);
       if (result.length === 0) return yield* Effect.fail(new UserNotFoundError(id));
       return result[0] })];
    [query] stands for [db.query] and [notFound] for the error constructor. *)
Definition findById {E Row} (notFound : string -> E)
    (query : string -> list string -> Effect E (list Row)) (id : string) : Effect E Row :=
  result <- query "SELECT * FROM users WHERE id = $1" [id] ;;
  match result with
  | [] => fail (notFound id)
  | row :: _ => succeed row
  end.

(** ** Scheduling *)

(** part 8, "API Client with Retry". *)
Record HttpResponse := mkHttpResponse { ok : bool; status : nat }.

Inductive ApiError := ApiNetworkError | HttpError (code : nat) | ApiParseError.

(** [const apiCall = (endpoint) => Effect.gen(function* () {
      const response = yield* Effect.tryPromise({ try: () => fetch(endpoint), catch: () => new NetworkError() });
      if (!response.ok) return yield* Effect.fail(new HttpError(response.status));
      return yield* Effect.tryPromise({ try: () => response.json(), catch: () => new ParseError() }) })];
    [fetch] and [json] stand for the two lifted promises. *)
Definition apiCall {J} (fetch : string -> Effect ApiError HttpResponse)
    (json : HttpResponse -> Effect ApiError J) (endpoint : string) : Effect ApiError J :=
  response <- fetch endpoint ;;
  if negb (ok response) then fail (HttpError (status response))
  else json response.

(** [Effect.retry(apiCall("/api/users"),
      Schedule.exponential("100 millis").pipe(Schedule.intersect(Schedule.recurs(5))))] *)
Definition resilientCall {J} (fuel : nat) (fetch : string -> Effect ApiError HttpResponse)
    (json : HttpResponse -> Effect ApiError J) : Effect ApiError J :=
  retry fuel (apiCall fetch json "/api/users") (intersect (exponential 100) (recurs 5)).

(** part 8, [Effect.retry(unreliable, Schedule.recurs(3).pipe(
      Schedule.intersect(Schedule.spaced("1 second"))))] *)
Definition spacedRetry (fuel : nat) : Effect FetchError string :=
  retry fuel unreliable (intersect (recurs 3) (spaced 1000)).

(** part 8, "Conditional Retry":
    [Effect.retry(fetchData, Schedule.recurs(3).pipe(
       Schedule.whileInput((error) => error._tag === "NetworkError")))],
    for any [fetchData] and any reading [tag] of its errors' [_tag]. *)
Definition smart {E A} (fuel : nat) (tag : E -> string) (fetchData : Effect E A) : Effect E A :=
  retry fuel fetchData
    (whileInput (fun error => String.eqb (tag error) "NetworkError") (recurs 3)).

(** part 8, "Repeat":
    [const healthCheck = Effect.sync(() => console.log("Checking health..."))] *)
Definition healthCheck {E} : Effect E unit :=
  sync (fun w => (tt, console_log "Checking health..." w)).

(** [Effect.repeat(healthCheck, Schedule.recurs(10))] *)
Definition repeatTen (fuel : nat) : Effect Empty_set unit :=
  repeat_effect fuel healthCheck (recurs 10).

(** ** Scopes *)

(** 04-resource-management.md, "addFinalizer":
    [Effect.scoped(Effect.gen(function* () {
       yield* Effect.addFinalizer(() => Effect.sync(() => console.log("Cleanup!")));
       ... }))], with the rest of the block as the parameter [work]. *)
Definition finalizer_program_from {E A} (work : Effect E A) : Effect E A :=
  scoped (addFinalizer (fun _ => sync (fun w => (tt, console_log "Cleanup!" w))) ;;; work).

(** The block of the document: [console.log("Doing work..."); return "result"]. *)
Definition finalizer_program {E} : Effect E string :=
  finalizer_program_from
    (sync (fun w => (tt, console_log "Doing work..." w)) ;;; succeed "result").

(** 04-resource-management.md, "Scope Hierarchy": [outer], with the inner
    and the outer block's work as parameters. *)
Definition outer_from {E} (inner_work outer_work : Effect E unit) : Effect E unit :=
  scoped (
    addFinalizer (fun _ => sync (fun w => (tt, console_log "Outer cleanup" w))) ;;;
    scoped (
      addFinalizer (fun _ => sync (fun w => (tt, console_log "Inner cleanup" w))) ;;;
      inner_work) ;;;
    outer_work).

Definition outer {E} : Effect E unit :=
  outer_from (sync (fun w => (tt, console_log "Inner work" w)))
             (sync (fun w => (tt, console_log "Outer work (after inner)" w))).

(** 04-resource-management.md, exercise 1:
    [const timer = Effect.acquireRelease(
       Effect.sync(() => { const start = Date.now(); console.log("Timer started"); return { start } }),
       (timer) => Effect.sync(() => { const elapsed = Date.now() - timer.start;
                                      console.log(`Timer ended: ${elapsed}ms`) }))] *)
Definition timer {E} : Effect E nat :=
  acquireRelease
    (sync (fun w => (clock w, console_log "Timer started" w)))
    (fun start => sync (fun w =>
       (tt, console_log ("Timer ended: " ++ show_nat (clock w - start) ++ "ms") w))).

(** Exercise 2, with the sleeping time as a parameter:
    [Effect.scoped(Effect.gen(function* () { yield* timer;
       yield* Effect.sleep(d); return "done" }))] *)
Definition timed_for {E} (d : nat) : Effect E string :=
  scoped (timer ;;; sleep d ;;; succeed "done").

Definition timed {E} : Effect E string := timed_for 1000.

(** ** Interrupting a fiber *)

(** 05-concurrency.md, "Interrupting Fibers": the loop
    [for (let i = 0; i < 10; i++) { console.log(`Step ${i}`); yield* Effect.sleep("1 second") }],
    from step [i] with [n] steps left. *)
Fixpoint long_loop {E} (i n : nat) : Effect E unit :=
  match n with
  | O => succeed tt
  | S n' =>
      sync (fun w => (tt, console_log ("Step " ++ show_nat i) w)) ;;;
      sleep 1000 ;;;
      long_loop (S i) n'
  end.

Definition longTask {E} : Effect E string :=
  long_loop 0 10 ;;; succeed "done".

(** [Effect.gen(function* () { const fiber = yield* Effect.fork(longTask);
      yield* Effect.sleep(ms); yield* Fiber.interrupt(fiber);
      console.log("Fiber interrupted!") })], with the waiting time as a
    parameter (the document waits 3 seconds). *)
Definition interrupt_long (ms : nat) : Effect Empty_set unit :=
  fork_sleep_interrupt (longTask (E := Empty_set)) ms ;;;
  sync (fun w => (tt, console_log "Fiber interrupted!" w)).

(** ** An HTTP handler (part 8, "HTTP Handler") *)

Record Response := mkResponse { body : string; status_code : nat }.

(** [userService.create]'s error: [InvalidUserError], with a message. *)
Record InvalidUser := mkInvalidUser { invalid_message : string }.

(** The errors of the handler's program: [Effect.tryPromise] without a
    [catch] reports an [UnknownException], [Schema.decodeUnknown] a
    [ParseError], [userService.create] an [InvalidUserError]. *)
Inductive HandlerError :=
| UnknownException
| ParseError
| InvalidUserError (message : string).

Definition HandlerError_tag (e : HandlerError) : string :=
  match e with
  | UnknownException => "UnknownException"
  | ParseError => "ParseError"
  | InvalidUserError _ => "InvalidUserError"
  end.

(** [const program = Effect.gen(function* () {
      const body = yield* Effect.tryPromise(() => req.json());
      const parsed = yield* Schema.decodeUnknown(CreateUserRequest)(body);
      const user = yield* userService.create(parsed);
      return new Response(JSON.stringify(user), { status: 201 }) })];
    [req_json] is the promise [req.json()] (any rejection), [decode] the
    schema ([None] when the body does not match), [create] the service
    call and [stringify] [JSON.stringify]. *)
Definition create_user_program {J R U} (req_json : Effect unit J) (decode : J -> option R)
    (create : R -> Effect InvalidUser U) (stringify : U -> string)
    : Effect HandlerError Response :=
  body0 <- mapError (fun _ => UnknownException) req_json ;;
  parsed <- (match decode body0 with
             | Some p => succeed p
             | None => fail ParseError
             end) ;;
  user <- mapError (fun e => InvalidUserError (invalid_message e)) (create parsed) ;;
  succeed (mkResponse (stringify user) 201).

(** [program.pipe(
      Effect.catchTag("ParseError", () => Effect.succeed(new Response("Invalid request", { status: 400 }))),
      Effect.catchTag("InvalidUserError", (e) => Effect.succeed(new Response(e.message, { status: 422 }))))] *)
Definition create_user_response {J R U} (req_json : Effect unit J) (decode : J -> option R)
    (create : R -> Effect InvalidUser U) (stringify : U -> string)
    : Effect HandlerError Response :=
  catchTag HandlerError_tag "InvalidUserError"
    (fun e => match e with
              | InvalidUserError msg => succeed (mkResponse msg 422)
              | e' => fail e'
              end)
    (catchTag HandlerError_tag "ParseError"
       (fun _ => succeed (mkResponse "Invalid request" 400))
       (create_user_program req_json decode create stringify)).

(** ** Observability (part 8, "Observability") *)

(** [const withLogging = (effect, name) => Effect.gen(function* () {
      const start = Date.now();
      yield* Effect.log(`Starting: ${name}`);
      const result = yield* effect.pipe(Effect.tapError((e) => Effect.log(`Failed: ${name}`, e)));
      const duration = Date.now() - start;
      yield* Effect.log(`Completed: ${name} (${duration}ms)`);
      return result })];
    [show_error] renders the error logged next to the failure message. *)
Definition withLogging {E A} (show_error : E -> string) (effect : Effect E A) (name : string)
    : Effect E A :=
  start <- now ;;
  log_line ("Starting: " ++ name) ;;;
  result <- tapError (fun e => log_line ("Failed: " ++ name ++ " " ++ show_error e)) effect ;;
  stop <- now ;;
  log_line ("Completed: " ++ name ++ " (" ++ show_nat (stop - start) ++ "ms)") ;;;
  succeed result.

(** ** Racing (05-concurrency.md, "Racing: First One Wins") *)

(** [const fast = Effect.delay(Effect.succeed("fast"), "1 second")] *)
Definition fast {E} : Effect E string := delay (succeed "fast") 1000.

(** [const slow = Effect.delay(Effect.succeed("slow"), "5 seconds")] *)
Definition slow {E} : Effect E string := delay (succeed "slow") 5000.

(** [const winner = yield* Effect.race(fast, slow)] *)
Definition winner {E} : Effect E string := race fast slow.

End MoreExamples.

(** * Statements of the spec, as definitions to compare the code with *)

Module SpecForms.
Import Effect.

(** The spec's account of [retry] on a description that keeps failing:
    the initial execution followed by [n] re-executions, one after the
    other, reporting the outcome of the last one. *)
Fixpoint executions_then_last {E A} (n : nat) (m : Effect E A) : Effect E A :=
  match n with
  | O => m
  | S n' => fun intr w =>
      let '(ex, f1, w1) := m intr w in
      let '(ex2, f2, w2) := executions_then_last n' m intr w1 in
      (ex2, f2 ++ f1, w2)
  end.

(** A description that fails with an expected error on every run. *)
Definition always_fails {E A} (m : Effect E A) : Prop :=
  forall intr w, exists e fs w', m intr w = (Failure e, fs, w').

(** The outcome of one run. *)
Definition exit_of {E A} (r : Exit E A * list Finalizer * World) : Exit E A :=
  fst (fst r).

(** [m]'s declared error channel is the set of tags [T]: every expected
    failure it can report carries one of these tags. *)
Definition declares {E A} (tag : E -> string) (T : list string) (m : Effect E A) : Prop :=
  forall intr w e, exit_of (m intr w) = Failure e -> In (tag e) T.

(** A description run once, then once more after each pause of [ds], one
    after the other, reporting the outcome of the last run. *)
Fixpoint executions_paused {E A} (ds : list nat) (m : Effect E A) : Effect E A :=
  match ds with
  | [] => m
  | d :: ds' => fun intr w =>
      let '(ex, f1, w1) := m intr w in
      let '(ex2, f2, w2) := (sleep d ;;; executions_paused ds' m) intr w1 in
      (ex2, f2 ++ f1, w2)
  end.

End SpecForms.

(** * Properties *)

Module Laws.
Import Effect Examples DocExamples SpecForms.
Local Open Scope string_scope.

Lemma run_finalizers_app (l1 l2 : list Finalizer) (acc : Exit Empty_set unit) (w : World) :
  run_finalizers (l1 ++ l2) acc w
  = let '(acc1, w1) := run_finalizers l1 acc w in run_finalizers l2 acc1 w1.
Proof.
  revert acc w. induction l1 as [|f l1 IH]; intros acc w; cbn; [reflexivity |].
  destruct (f w) as [ex w1]. apply IH.
Qed.

Lemma run_finalizers_world (l : list Finalizer) (acc acc' : Exit Empty_set unit) (w : World) :
  snd (run_finalizers l acc w) = snd (run_finalizers l acc' w).
Proof.
  revert acc acc' w. induction l as [|f l IH]; intros acc acc' w; cbn; [reflexivity |].
  destruct (f w) as [ex w1]. apply IH.
Qed.

Lemma run_finalizers_kept (l : list Finalizer) (acc : Exit Empty_set unit) (w : World) :
  (forall u, acc <> Success u) -> fst (run_finalizers l acc w) = acc.
Proof.
  revert w. induction l as [|f l IH]; intros w Hacc; cbn; [reflexivity |].
  destruct (f w) as [ex w1].
  destruct acc as [u | [] | d |]; [exfalso; apply (Hacc u); reflexivity | |]; apply IH; assumption.
Qed.

Lemma close_scope_app (l1 l2 : list Finalizer) (w : World) :
  close_scope (l1 ++ l2) w = close_scope l2 (close_scope l1 w).
Proof.
  unfold close_scope. rewrite run_finalizers_app.
  destruct (run_finalizers l1 (Success tt) w) as [acc1 w1]. cbn. apply run_finalizers_world.
Qed.

Lemma close_scope_cons (f : Finalizer) (l : list Finalizer) (w : World) :
  close_scope (f :: l) w = close_scope l (snd (f w)).
Proof.
  unfold close_scope. cbn. destruct (f w) as [ex w1]. apply run_finalizers_world.
Qed.

Lemma finalizers_exit_app (l1 l2 : list Finalizer) (w : World) :
  finalizers_exit (l1 ++ l2) w
  = match finalizers_exit l1 w with
    | Success _ => finalizers_exit l2 (close_scope l1 w)
    | ex => ex
    end.
Proof.
  unfold finalizers_exit, close_scope. rewrite run_finalizers_app.
  destruct (run_finalizers l1 (Success tt) w) as [acc1 w1]. cbn.
  destruct acc1 as [[] | [] | d |]; [reflexivity | |];
    apply run_finalizers_kept; discriminate.
Qed.

Lemma world_eta (w : World) : mkWorld (clock w) (log w) = w.
Proof. destruct w; reflexivity. Qed.

(** Acquiring the named resources one after the other prints their
    openings in order and registers finalizers that print the closings in
    reverse order. *)
Lemma acquire_all_run {E} (names : list string) (intr : Interruption) (w : World) :
  exists fins,
    acquire_all (E := E) names intr w
    = (Success names, fins,
       mkWorld (clock w) (log w ++ List.map (fun n => "Opening " ++ n) names))
    /\ (forall w0, close_scope fins w0
       = mkWorld (clock w0) (log w0 ++ List.map (fun n => "Closing " ++ n) (rev names)))
    /\ (forall w0, finalizers_exit fins w0 = Success tt).
Proof.
  revert w. induction names as [|n rest IH]; intro w.
  - exists []. split; [| split].
    + cbn. rewrite app_nil_r, world_eta. reflexivity.
    + intro w0. cbn. rewrite app_nil_r, world_eta. reflexivity.
    + reflexivity.
  - destruct (IH (console_log ("Opening " ++ n) w)) as [fins [Hrun [Hclose Hexit]]].
    eexists. split; [| split].
    + cbn [acquire_all]. unfold flatMap at 1. cbn - [acquire_all String.append].
      unfold flatMap at 1. rewrite Hrun. cbn.
      rewrite <- app_assoc. reflexivity.
    + intro w0. rewrite close_scope_app, Hclose.
      cbn [rev]. rewrite List.map_app, app_assoc. reflexivity.
    + intro w0. rewrite finalizers_exit_app, Hexit. reflexivity.
Qed.

(** C1 (resource law).  Once the acquisition has succeeded with [a],
    running [Effect.scoped] over "acquire, then use" runs the release
    applied to [a] exactly once: after the use has finished and the
    finalizers registered during the use have run, before the finalizers
    registered earlier and before the outcome is reported.  The reported
    outcome is the use's, whatever it is (success, expected failure,
    defect or interruption), except that after a successful use the first
    failure among the scope's finalizers, the release included, is
    reported instead. *)
Theorem scoped_release_runs_once {E A B} (acquire : Effect E A)
    (release : A -> Effect Empty_set unit) (use : A -> Effect E B)
    (intr : Interruption) (w : World) (a : A) (fa : list Finalizer) (w1 : World) :
  acquire None w = (Success a, fa, w1) ->
  scoped (r <- acquireRelease acquire release ;; use r) intr w
  = let '(ex, fu, w2) := use a intr w1 in
    (merge_exit ex (finalizers_exit (fu ++ run_finalizer (release a) :: fa) w2), [],
     close_scope fa (snd (run_finalizer (release a) (close_scope fu w2)))).
Proof.
  intro Hacq. unfold scoped, flatMap, acquireRelease. rewrite Hacq.
  destruct (use a intr w1) as [[ex fu] w2].
  rewrite close_scope_app, close_scope_cons. reflexivity.
Qed.

Lemma scoped_release_runs_once_witness :
  open_resource (E := string) None initial_world
  = (Success (mkResourceData "resource data"), [],
     console_log "Opening resource" initial_world)
  /\ programWithError None initial_world
     = (Failure "Boom!", [],
        mkWorld 0 ["Opening resource"; "Using resource"; "Closing resource"]).
Proof.
  split; [reflexivity |].
  unfold programWithError, resource.
  rewrite (scoped_release_runs_once open_resource close_resource use_with_error
             None initial_world (mkResourceData "resource data") []
             (console_log "Opening resource" initial_world) eq_refl).
  reflexivity.
Defined.

(** C2 (LIFO law).  For every list of N resource names, acquiring them one
    after the other in a single scope and closing it prints the openings in
    acquisition order and then the closings in exactly the reverse order;
    with "DB" then "File" the File is closed first, then the DB. *)
Theorem scoped_release_order_lifo :
  (forall (names : list string) (intr : Interruption) (w : World),
     scoped (E := Empty_set) (acquire_all names) intr w
     = (Success names, [],
        mkWorld (clock w)
          (log w ++ List.map (fun n => "Opening " ++ n) names
                 ++ List.map (fun n => "Closing " ++ n) (rev names))))
  /\ runSyncLog two_resources_program
     = ["1. Opening DB"; "2. Opening File"; "Using both resources";
        "3. Closing File"; "4. Closing DB"].
Proof.
  split; [| reflexivity].
  intros names intr w.
  destruct (acquire_all_run (E := Empty_set) names intr w) as [fins [Hrun [Hclose Hexit]]].
  unfold scoped. rewrite Hrun, Hclose, Hexit. cbn. rewrite app_assoc. reflexivity.
Qed.

(** C8, as the claim reads: mapping by [f] and then by [g] is the same as
    mapping once by "f after g", i.e. [fun x => f (g x)].  False: on
    [Effect.succeed(5)] with [f = x => x * 2] and [g = x => x + 3] (the
    first stages of [transformed]) the left side gives 13, the right side
    16. *)
Lemma map_fusion_f_after_g_fails :
  ~ (forall (d : Effect Empty_set float) (f g : float -> float)
            (intr : Interruption) (w : World),
       map g (map f d) intr w = map (fun x => f (g x)) d intr w).
Proof.
  intro H.
  specialize (H (succeed 5%float) double plus_three None initial_world).
  apply (f_equal (fun r : Exit Empty_set float * list Finalizer * World =>
    match r with (Success x, _, _) => PrimFloat.eqb x 13%float | _ => false end)) in H.
  vm_compute in H. discriminate H.
Qed.

(** C8 (amended).  Mapping a description's success value by [f] and then
    by [g] gives, on every run, the same outcome, finalizers and world as
    mapping it once by the composition [g] after [f]. *)
Theorem map_fusion {E A B C} (d : Effect E A) (f : A -> B) (g : B -> C)
    (intr : Interruption) (w : World) :
  map g (map f d) intr w = map (fun x => g (f x)) d intr w.
Proof.
  unfold map. destruct (d intr w) as [[ex fs] w1].
  destruct ex; reflexivity.
Qed.

(** C9 (identity law).  Running [Effect.succeed(v)] synchronously returns
    [v] unchanged, for every value [v]; [simpleSuccess = Effect.succeed(42)]
    returns 42. *)
Theorem runSync_succeed :
  (forall (E A : Type) (v : A), runSync (E := E) (succeed v) = inl v)
  /\ runSync simpleSuccess = inl 42.
Proof. split; reflexivity. Qed.

(** C10.  [divide(a, b)] fails with the expected error
    [DivisionError("Cannot divide by zero")] (discriminant
    "DivisionError") exactly when [b === 0], and otherwise succeeds with
    [a / b]; building it has no effect on the world, registers nothing, and
    its outcome is never a defect. *)
Theorem divide_outcome (a b : float) (intr : Interruption) (w : World) :
  divide a b intr w
  = (if PrimFloat.eqb b 0%float
     then Failure (mkDivisionError "Cannot divide by zero")
     else Success (PrimFloat.div a b), [], w)
  /\ (forall e, DivisionError_tag e = "DivisionError")
  /\ (forall d, fst (fst (divide a b intr w)) <> Die d).
Proof.
  unfold divide. split; [| split].
  - destruct (PrimFloat.eqb b 0%float); reflexivity.
  - reflexivity.
  - intro d. destruct (PrimFloat.eqb b 0%float); discriminate.
Qed.

Lemma sleep_zero_none {E} (w : World) : sleep (E := E) 0 None w = (Success tt, [], w).
Proof. unfold sleep, advance. rewrite Nat.add_0_r, world_eta. reflexivity. Qed.

Lemma retry_loop_always_failing {E A} (m : Effect E A) (K : nat) :
  always_fails m ->
  forall fuel a w, K - a < fuel -> a <= K ->
  retry_loop fuel a m (recurs K) None w = executions_then_last (K - a) m None w.
Proof.
  intro Hfail. induction fuel as [|fuel IH]; intros a w Hfuel Ha; [lia |].
  cbn [retry_loop]. destruct (Hfail None w) as [e [fs [w' Hm]]]. rewrite Hm.
  unfold recurs. destruct (Nat.ltb_spec a K) as [Hlt | Hge].
  - replace (K - a) with (S (K - S a)) by lia.
    cbn [executions_then_last]. rewrite Hm.
    unfold flatMap. rewrite sleep_zero_none.
    change (fun (k : nat) (_ : E) => if Nat.ltb k K then Continue 0 else Done)
      with (recurs (E := E) K).
    rewrite (IH (S a) w') by lia.
    destruct (executions_then_last (K - S a) m None w') as [[ex2 f2] w2].
    rewrite app_nil_r. reflexivity.
  - replace (K - a) with 0 by lia. cbn [executions_then_last]. rewrite Hm. reflexivity.
Qed.

(** C3 (retry termination).  Retrying a description that always fails
    with [Schedule.recurs(K)] executes it exactly K + 1 times in sequence
    (the initial execution and K retries) and reports the failure of the
    last execution. *)
Theorem retry_recurs_always_failing {E A} (K fuel : nat) (m : Effect E A) (w : World) :
  K < fuel -> always_fails m ->
  retry fuel m (recurs K) None w = executions_then_last K m None w.
Proof.
  intros Hfuel Hfail. unfold retry.
  rewrite (retry_loop_always_failing m K Hfail fuel 0 w) by lia.
  rewrite Nat.sub_0_r. reflexivity.
Qed.

Lemma unreliable_always_fails : always_fails unreliable.
Proof. intros intr w. eexists _, _, _. reflexivity. Qed.

Lemma retry_recurs_always_failing_witness :
  3 < 10 /\ always_fails unreliable
  /\ retried 10 None initial_world
     = (Failure NetworkError, [],
        mkWorld 0 (repeat "GET https://api.example.com/flaky" 4)).
Proof.
  split; [lia | split; [apply unreliable_always_fails |]].
  unfold retried.
  rewrite (retry_recurs_always_failing 3 10 unreliable initial_world
             ltac:(lia) unreliable_always_fails).
  reflexivity.
Defined.

(** C4 (error union law).  On every run, a chain [flatMap m k] fails with
    [e] exactly when [m] fails with [e] or [m] succeeds and the second
    stage fails with [e]; so its declared error channel is the union of
    the two stages' channels.  [catchTag t h m] fails with [e] exactly when
    [m] fails with [e] whose tag is not [t] (every other tag propagates
    unchanged), or [m] fails with a [t]-tagged error and the handler fails
    with [e]; so with an infallible handler its declared error channel is
    [m]'s channel with the tag [t] removed. *)
Theorem error_union_and_catchTag {E A B} (tag : E -> string) :
  (forall (m : Effect E A) (k : A -> Effect E B) intr w e,
     exit_of (flatMap m k intr w) = Failure e <->
     exit_of (m intr w) = Failure e
     \/ exists a fs w1, m intr w = (Success a, fs, w1)
                        /\ exit_of (k a intr w1) = Failure e)
  /\ (forall T1 T2 (m : Effect E A) (k : A -> Effect E B),
        declares tag T1 m -> (forall a, declares tag T2 (k a)) ->
        declares tag (T1 ++ T2) (flatMap m k))
  /\ (forall t (h : E -> Effect E B) (m : Effect E B) intr w e,
        exit_of (catchTag tag t h m intr w) = Failure e <->
        (exit_of (m intr w) = Failure e /\ tag e <> t)
        \/ exists e0 fs w1, m intr w = (Failure e0, fs, w1) /\ tag e0 = t
                            /\ exit_of (h e0 intr w1) = Failure e)
  /\ (forall t T (h : E -> Effect E B) (m : Effect E B),
        declares tag T m -> (forall e, declares tag [] (h e)) ->
        declares tag (remove string_dec t T) (catchTag tag t h m)).
Proof.
  assert (Hchain : forall (m : Effect E A) (k : A -> Effect E B) intr w e,
     exit_of (flatMap m k intr w) = Failure e <->
     exit_of (m intr w) = Failure e
     \/ exists a fs w1, m intr w = (Success a, fs, w1)
                        /\ exit_of (k a intr w1) = Failure e).
  { intros m k intr w e. unfold flatMap, exit_of.
    destruct (m intr w) as [[ex fs] w1] eqn:Hm.
    destruct ex as [a | e1 | d |]; cbn.
    - destruct (k a intr w1) as [[ex2 f2] w2] eqn:Hk. cbn. split.
      + intro H. right. exists a, fs, w1. rewrite Hk. auto.
      + intros [H | [a' [fs' [w1' [Heq H]]]]]; [discriminate |].
        injection Heq as <- <- <-. rewrite Hk in H. exact H.
    - split.
      + intro H. left. injection H as ->. reflexivity.
      + intros [H | [a' [fs' [w1' [Heq _]]]]]; [| discriminate].
        injection H as ->. reflexivity.
    - split; [discriminate |]. intros [H | [a' [fs' [w1' [Heq _]]]]]; discriminate.
    - split; [discriminate |]. intros [H | [a' [fs' [w1' [Heq _]]]]]; discriminate. }
  assert (Hcatch : forall t (h : E -> Effect E B) (m : Effect E B) intr w e,
        exit_of (catchTag tag t h m intr w) = Failure e <->
        (exit_of (m intr w) = Failure e /\ tag e <> t)
        \/ exists e0 fs w1, m intr w = (Failure e0, fs, w1) /\ tag e0 = t
                            /\ exit_of (h e0 intr w1) = Failure e).
  { intros t h m intr w e. unfold catchTag, exit_of.
    destruct (m intr w) as [[ex fs] w1] eqn:Hm.
    destruct ex as [a | e1 | d |]; cbn.
    - split; [discriminate |].
      intros [[H _] | [e0 [fs' [w1' [Heq _]]]]]; discriminate.
    - destruct (String.eqb_spec (tag e1) t) as [Ht | Ht].
      + destruct (h e1 intr w1) as [[ex2 f2] w2] eqn:Hh. cbn. split.
        * intro H. right. exists e1, fs, w1. rewrite Hh. auto.
        * intros [[H Hne] | [e0 [fs' [w1' [Heq [Ht0 H]]]]]].
          -- injection H as <-. contradiction.
          -- injection Heq as <- <- <-. rewrite Hh in H. exact H.
      + cbn. split.
        * intro H. left. injection H as <-. auto.
        * intros [[H _] | [e0 [fs' [w1' [Heq [Ht0 _]]]]]]; [exact H |].
          injection Heq as <- _ _. contradiction.
    - split; [discriminate |].
      intros [[H _] | [e0 [fs' [w1' [Heq _]]]]]; discriminate.
    - split; [discriminate |].
      intros [[H _] | [e0 [fs' [w1' [Heq _]]]]]; discriminate. }
  split; [exact Hchain | split; [| split; [exact Hcatch |]]].
  - intros T1 T2 m k Hm Hk intr w e H. apply Hchain in H.
    apply in_or_app. destruct H as [H | [a [fs [w1 [Heq H]]]]].
    + left. exact (Hm intr w e H).
    + right. exact (Hk a intr w1 e H).
  - intros t T h m Hm Hh intr w e H. apply Hcatch in H.
    destruct H as [[H Hne] | [e0 [fs [w1 [_ [_ H]]]]]].
    + apply in_in_remove; [exact Hne | exact (Hm intr w e H)].
    + destruct (Hh e0 intr w1 e H).
Qed.

Lemma error_union_and_catchTag_witness :
  exit_of (catchTag FetchError_tag "NetworkError" (fun _ => succeed "fallback")
             (fail NotFoundError) None initial_world)
  = Failure NotFoundError.
Proof.
  apply (proj2 (proj1 (proj2 (proj2 (error_union_and_catchTag (A := unit) FetchError_tag)))
    "NetworkError" (fun _ => succeed "fallback") (fail NotFoundError) None initial_world
    NotFoundError)).
  left. split; [reflexivity | discriminate].
Defined.

(** C6 (timeout).  When no outside interruption is due before the timer,
    [Effect.timeout(d, ms)] runs [d] with an interruption due when the
    timer fires: if the timer wins, [d] is interrupted there and the
    absence marker [None] is reported as a success (not as a failure);
    if [d] finishes first, its outcome is reported with its value wrapped
    in [Some]. *)
Theorem timeout_absence_marker {E A} (m : Effect E A) (ms : nat)
    (intr : Interruption) (w : World) :
  match intr with None => True | Some t => clock w + ms < t end ->
  timeout m ms intr w
  = let '(ex, fs, w1) := m (Some (clock w + ms)) w in
    (match ex with Interrupted => Success None | _ => exit_map Some ex end, fs, w1).
Proof.
  intro Hintr. unfold timeout.
  assert (Hfirst : match intr with None => true | Some t => Nat.ltb (clock w + ms) t end = true).
  { destruct intr as [t |]; [apply Nat.ltb_lt; exact Hintr | reflexivity]. }
  rewrite Hfirst.
  destruct (m (Some (clock w + ms)) w) as [[ex fs] w1].
  destruct ex; reflexivity.
Qed.

Lemma timeout_absence_marker_witness :
  True
  /\ timeout (E := Empty_set) (delay (succeed "done") 10000) 5000 None initial_world
     = (Success None, [], mkWorld 5000 [])
  /\ timeout (E := Empty_set) (delay (succeed "done") 1000) 5000 None initial_world
     = (Success (Some "done"), [], mkWorld 1000 []).
Proof.
  split; [exact I | split].
  - rewrite (timeout_absence_marker (delay (succeed "done") 10000) 5000 None
               initial_world I).
    reflexivity.
  - rewrite (timeout_absence_marker (delay (succeed "done") 1000) 5000 None
               initial_world I).
    reflexivity.
Defined.

(** C5 (race law).  Racing a description that succeeds after [df]
    milliseconds against one that succeeds after [ds > df] milliseconds,
    in either order, returns the fast one's result at time [df]; the
    slow one's fiber ends Interrupted, never Succeeded. *)
Theorem race_fast_slow {E A} (a b : A) (df ds : nat) (w : World) :
  df < ds ->
  race_run (E := E) (delay (succeed a) df) (delay (succeed b) ds) None w
  = (Success a, Success a, Interrupted, [], mkWorld (clock w + df) (log w))
  /\ race_run (E := E) (delay (succeed b) ds) (delay (succeed a) df) None w
  = (Success a, Interrupted, Success a, [], mkWorld (clock w + df) (log w)).
Proof.
  intro Hlt. unfold race_run, delay, flatMap, sleep, succeed, advance, set_clock, join_worlds.
  cbn [clock log is_success].
  destruct (Nat.leb_spec (clock w + df) (clock w + ds)) as [_ | H]; [| lia].
  destruct (Nat.leb_spec (clock w + ds) (clock w + df)) as [H | _]; [lia |].
  destruct (Nat.ltb_spec (clock w + df) (clock w + ds)) as [_ | H]; [| lia].
  cbn [clock log]. rewrite skipn_all, app_nil_r.
  replace (Nat.max (clock w) (clock w + df)) with (clock w + df) by lia.
  rewrite Nat.max_id. split; rewrite ?skipn_all, ?app_nil_r; reflexivity.
Qed.

Lemma race_fast_slow_witness :
  race_run (E := Empty_set) (MoreExamples.fast (E := Empty_set)) MoreExamples.slow None initial_world
  = (Success "fast", Success "fast", Interrupted, [], mkWorld 1000 []).
Proof.
  destruct (race_fast_slow (E := Empty_set) "fast" "slow" 1000 5000 initial_world) as [H _];
    [lia |].
  exact H.
Defined.

End Laws.

(** * Properties of the further examples *)

Module Extras.
Import Effect Examples DocExamples MoreExamples SpecForms.
Local Open Scope string_scope.

Lemma flatMap_ext {E A B} (m : Effect E A) (k1 k2 : A -> Effect E B) intr w :
  (forall a intr' w', k1 a intr' w' = k2 a intr' w') ->
  flatMap m k1 intr w = flatMap m k2 intr w.
Proof.
  intro H. unfold flatMap. destruct (m intr w) as [[ex f1] w1].
  destruct ex; try reflexivity. rewrite H. reflexivity.
Qed.

(** ** Catching errors *)

(** The [catchAll] pipeline of the error-handling document always
    succeeds: with the quotient when the divisor is not zero, and with the
    fallback [0] after printing the caught error's message when it is; it
    prints nothing in the first case and registers no finalizer. *)
Theorem catch_program_outcome (a b : float) (intr : Interruption) (w : World) :
  catch_program a b intr w =
  if PrimFloat.eqb b 0%float
  then (Success 0%float, [], console_log "Caught: Cannot divide by zero" w)
  else (Success (PrimFloat.div a b), [], w).
Proof.
  unfold catch_program, catchAll, divide.
  destruct (PrimFloat.eqb b 0%float); reflexivity.
Qed.

(** The handled division of the examples file always succeeds, with the
    quotient when the divisor is not zero and with
    ["Handled: Cannot divide by zero"] when it is, without touching the
    world. *)
Theorem handled_divide_outcome (a b : float) (intr : Interruption) (w : World) :
  handled_divide a b intr w =
  (Success (if PrimFloat.eqb b 0%float
            then inr "Handled: Cannot divide by zero"
            else inl (PrimFloat.div a b)), [], w).
Proof.
  unfold handled_divide, catchAll, map, divide.
  destruct (PrimFloat.eqb b 0%float); reflexivity.
Qed.

(** The Effect [divide] fails exactly on the inputs where the throwing
    [divide] throws, and otherwise succeeds with the value the throwing
    one returns. *)
Theorem divide_refines_throwing (a b : float) (intr : Interruption) (w : World) :
  divide a b intr w =
  match divide_throwing a b with
  | inl v => (Success v, [], w)
  | inr _ => (Failure (mkDivisionError "Cannot divide by zero"), [], w)
  end.
Proof.
  unfold divide, divide_throwing.
  destruct (PrimFloat.eqb b 0%float); reflexivity.
Qed.

(** The two [catchTag] handlers turn a [NetworkError] into ["fallback"] and
    a [TimeoutError] into ["retry"]; every other outcome, a
    [NotFoundError] included, passes through, with the same finalizers and
    world. *)
Theorem handled_from_outcome (m : Effect FetchError string) (intr : Interruption) (w : World) :
  handled_from m intr w =
  let '(ex, fs, w1) := m intr w in
  (match ex with
   | Failure NetworkError => Success "fallback"
   | Failure TimeoutError => Success "retry"
   | ex' => ex'
   end, fs, w1).
Proof.
  unfold handled_from, catchTag. destruct (m intr w) as [[ex fs] w1].
  destruct ex as [a | [] | d |]; reflexivity.
Qed.

(** With a handler for each of the three tags, [catchTags] never lets an
    expected failure through: each error is replaced by its handler's
    value, and every other outcome passes through unchanged. *)
Theorem catchTags_handled_outcome (m : Effect FetchError string)
    (intr : Interruption) (w : World) :
  catchTags_handled m intr w =
  let '(ex, fs, w1) := m intr w in
  (match ex with
   | Failure NetworkError => Success "cache"
   | Failure TimeoutError => Success "retry"
   | Failure NotFoundError => Success "default"
   | ex' => ex'
   end, fs, w1).
Proof.
  unfold catchTags_handled, catchTags. destruct (m intr w) as [[ex fs] w1].
  destruct ex as [a | [] | d |]; reflexivity.
Qed.

(** Wrapping errors in [AppError] loses nothing: unwrapping the [cause]
    again gives back the original run exactly. *)
Theorem mapped_cause_roundtrip (m : Effect FetchError string) (intr : Interruption) (w : World) :
  mapError cause (mapped_from m) intr w = m intr w.
Proof.
  unfold mapped_from, mapError. destruct (m intr w) as [[ex fs] w1].
  destruct ex; reflexivity.
Qed.

(** [orElseSucceed] keeps a success, replaces any expected failure by the
    default value, and lets defects and interruptions through, with the
    same finalizers and world. *)
Theorem withDefault_outcome {E} (m : Effect E string) (intr : Interruption) (w : World) :
  withDefault_from m intr w =
  let '(ex, fs, w1) := m intr w in
  (match ex with
   | Success a => Success a
   | Failure _ => Success "default value"
   | Die d => Die d
   | Interrupted => Interrupted
   end, fs, w1).
Proof.
  unfold withDefault_from, orElseSucceed, catchAll. destruct (m intr w) as [[ex fs] w1].
  destruct ex; reflexivity.
Qed.

(** ** Looking users up *)

(** [getUser] succeeds with the user [database.findUser] finds, fails
    with [UserNotFoundError] carrying the requested id when it finds none,
    and passes on every other outcome of the lookup, with nothing run
    after it. *)
Theorem getUser_outcome {U} (findUser : string -> Effect UserNotFoundError (option U))
    (id : string) (intr : Interruption) (w : World) :
  getUser findUser id intr w =
  let '(ex, fs, w1) := findUser id intr w in
  (match ex with
   | Success (Some u) => Success u
   | Success None => Failure (mkUserNotFoundError id)
   | Failure e => Failure e
   | Die d => Die d
   | Interrupted => Interrupted
   end, fs, w1).
Proof.
  unfold getUser, flatMap. destruct (findUser id intr w) as [[ex fs] w1].
  destruct ex as [[u |] | e | d |]; reflexivity.
Qed.

(** [findById] queries by the requested id, fails with the not-found error
    for that id when no row comes back, and otherwise succeeds with the
    first row; the query's own failures pass through. *)
Theorem findById_outcome {E Row} (notFound : string -> E)
    (query : string -> list string -> Effect E (list Row))
    (id : string) (intr : Interruption) (w : World) :
  findById notFound query id intr w =
  let '(ex, fs, w1) := query "SELECT * FROM users WHERE id = $1" [id] intr w in
  (match ex with
   | Success [] => Failure (notFound id)
   | Success (row :: _) => Success row
   | Failure e => Failure e
   | Die d => Die d
   | Interrupted => Interrupted
   end, fs, w1).
Proof.
  unfold findById, flatMap.
  destruct (query "SELECT * FROM users WHERE id = $1" [id] intr w) as [[ex fs] w1].
  destruct ex as [[| row rows] | e | d |]; reflexivity.
Qed.

(** ** The API client *)

(** When the response is not [ok], [apiCall] fails with [HttpError]
    carrying the response's status, right after the fetch: the body is
    never parsed, whatever [json] would do. *)
Theorem apiCall_not_ok {J} (fetch : string -> Effect ApiError HttpResponse)
    (json : HttpResponse -> Effect ApiError J) (endpoint : string)
    (intr : Interruption) (w : World) (r : HttpResponse) fs w1 :
  fetch endpoint intr w = (Success r, fs, w1) ->
  ok r = false ->
  apiCall fetch json endpoint intr w = (Failure (HttpError (status r)), fs, w1).
Proof.
  intros Hf Hok. unfold apiCall, flatMap. rewrite Hf, Hok. reflexivity.
Qed.

Lemma apiCall_not_ok_witness :
  apiCall (J := nat) (fun _ => succeed (mkHttpResponse false 503)) (fun _ => succeed 1)
    "/api/users" None initial_world
  = (Failure (HttpError 503), [], initial_world).
Proof.
  apply (apiCall_not_ok (J := nat) (fun _ => succeed (mkHttpResponse false 503))
           (fun _ => succeed 1) "/api/users" None initial_world
           (mkHttpResponse false 503) [] initial_world); reflexivity.
Defined.

(** ** Retry and repeat schedules *)

(** The retry driver on a description whose every run fails with an
    error satisfying [P], under a schedule that, for such errors, continues
    after [f k] milliseconds while [k < K] and then stops: the runs and
    the pauses [f a], ..., [f (K - 1)] in between. *)
Lemma retry_loop_paused {E A} (m : Effect E A) (P : E -> Prop) (s : Schedule E)
    (f : nat -> nat) (K : nat) :
  (forall intr w, exists e fs w', m intr w = (Failure e, fs, w') /\ P e) ->
  (forall k e, P e -> s k e = if Nat.ltb k K then Continue (f k) else Done) ->
  forall fuel a intr w, K - a < fuel -> a <= K ->
  retry_loop fuel a m s intr w = executions_paused (List.map f (seq a (K - a))) m intr w.
Proof.
  intros Hm Hs. induction fuel as [|fuel IH]; intros a intr w Hfuel Ha; [lia |].
  cbn [retry_loop]. destruct (Hm intr w) as (e & fs & w' & Hrun & HP).
  rewrite Hrun, (Hs a e HP). destruct (Nat.ltb_spec a K) as [Hlt | Hge].
  - replace (K - a) with (S (K - S a)) by lia. cbn [seq List.map executions_paused].
    rewrite Hrun.
    rewrite (flatMap_ext (sleep (f a)) (fun _ => retry_loop fuel (S a) m s)
               (fun _ => executions_paused (List.map f (seq (S a) (K - S a))) m))
      by (intros; apply IH; lia).
    reflexivity.
  - replace (K - a) with 0 by lia. cbn. rewrite Hrun. reflexivity.
Qed.

Lemma retry_paused {E A} (m : Effect E A) (P : E -> Prop) (s : Schedule E)
    (f : nat -> nat) (K fuel : nat) (intr : Interruption) (w : World) :
  (forall intr w, exists e fs w', m intr w = (Failure e, fs, w') /\ P e) ->
  (forall k e, P e -> s k e = if Nat.ltb k K then Continue (f k) else Done) ->
  K < fuel ->
  retry fuel m s intr w = executions_paused (List.map f (seq 0 K)) m intr w.
Proof.
  intros Hm Hs Hfuel. unfold retry.
  rewrite (retry_loop_paused m P s f K Hm Hs fuel 0 intr w) by lia.
  rewrite Nat.sub_0_r. reflexivity.
Qed.

Lemma always_fails_true {E A} (m : Effect E A) :
  always_fails m ->
  forall intr w, exists e fs w', m intr w = (Failure e, fs, w') /\ True.
Proof. intros H intr w. destruct (H intr w) as (e & fs & w' & Hr). eauto. Qed.

Lemma map_const_seq (d a K : nat) : List.map (fun _ => d) (seq a K) = List.repeat d K.
Proof. revert a. induction K as [|K IH]; intro a; cbn; [reflexivity | now rewrite IH]. Qed.

(** Retrying a description that always fails with
    [Schedule.recurs(K).pipe(Schedule.intersect(Schedule.spaced(d)))], the
    shape of [spacedRetry], runs it K + 1 times with a pause of [d]
    milliseconds before each re-run, and reports the last failure; an
    interruption is handled as in that sequence of runs and sleeps. *)
Theorem spaced_recurs_retry {E A} (m : Effect E A) (K d fuel : nat)
    (intr : Interruption) (w : World) :
  K < fuel -> always_fails m ->
  retry fuel m (intersect (recurs K) (spaced d)) intr w
  = executions_paused (List.repeat d K) m intr w.
Proof.
  intros Hfuel Hfail.
  rewrite (retry_paused m (fun _ => True) _ (fun _ => d) K fuel intr w
             (always_fails_true m Hfail)) by
    (try assumption; intros k e _; unfold intersect, recurs, spaced;
     destruct (Nat.ltb k K); reflexivity).
  rewrite map_const_seq. reflexivity.
Qed.

Lemma spaced_recurs_retry_witness :
  retry 5 unreliable (intersect (recurs 3) (spaced 1000)) None initial_world
  = executions_paused (List.repeat 1000 3) unreliable None initial_world.
Proof.
  apply (spaced_recurs_retry unreliable 3 1000 5 None initial_world).
  - lia.
  - intros intr w. eexists _, _, _. reflexivity.
Defined.

(** [resilientCall] on an API call that always fails runs it six times,
    with exponential pauses of 100, 200, 400, 800 and 1600 milliseconds in
    between, and reports the last failure. *)
Theorem resilientCall_always_failing {J} (fuel : nat)
    (fetch : string -> Effect ApiError HttpResponse) (json : HttpResponse -> Effect ApiError J)
    (intr : Interruption) (w : World) :
  5 < fuel -> always_fails (apiCall fetch json "/api/users") ->
  resilientCall fuel fetch json intr w
  = executions_paused [100; 200; 400; 800; 1600] (apiCall fetch json "/api/users") intr w.
Proof.
  intros Hfuel Hfail. unfold resilientCall.
  rewrite (retry_paused _ (fun _ => True) _ (fun k => 100 * 2 ^ k) 5 fuel intr w
             (always_fails_true _ Hfail)) by
    (first [assumption |
            intros k e _; unfold intersect, exponential, recurs;
            destruct (Nat.ltb k 5); rewrite ?Nat.max_0_r; reflexivity]).
  reflexivity.
Qed.

Lemma resilientCall_always_failing_witness :
  resilientCall (J := nat) 6 (fun _ => fail ApiNetworkError) (fun _ => succeed 1) None initial_world
  = executions_paused [100; 200; 400; 800; 1600]
      (apiCall (J := nat) (fun _ => fail ApiNetworkError) (fun _ => succeed 1) "/api/users")
      None initial_world.
Proof.
  apply (resilientCall_always_failing (J := nat) 6 (fun _ => fail ApiNetworkError)
           (fun _ => succeed 1) None initial_world).
  - lia.
  - intros intr w. eexists _, _, _. reflexivity.
Defined.

(** [smart] retries only network errors: a run of the request that ends
    in any other way, a failure with another tag included, is reported at
    once, exactly as that single run. *)
Theorem smart_other_error_once {E A} (fuel : nat) (tag : E -> string) (m : Effect E A)
    (intr : Interruption) (w : World) :
  0 < fuel ->
  (forall e, exit_of (m intr w) = Failure e -> tag e <> "NetworkError") ->
  smart fuel tag m intr w = m intr w.
Proof.
  intros Hfuel Htag. destruct fuel as [|fuel]; [lia |].
  unfold smart, retry. cbn [retry_loop]. unfold exit_of in Htag.
  destruct (m intr w) as [[ex fs] w1]. destruct ex as [a | e | d |]; try reflexivity.
  unfold whileInput. specialize (Htag e eq_refl).
  destruct (String.eqb_spec (tag e) "NetworkError") as [Heq | _]; [contradiction | reflexivity].
Qed.

(** On a request whose every run fails with a network error, [smart]
    runs it four times in a row and reports the last failure. *)
Theorem smart_network_error_four_runs {E A} (fuel : nat) (tag : E -> string) (m : Effect E A)
    (intr : Interruption) (w : World) :
  3 < fuel ->
  (forall intr w, exists e fs w', m intr w = (Failure e, fs, w') /\ tag e = "NetworkError") ->
  smart fuel tag m intr w = executions_paused [0; 0; 0] m intr w.
Proof.
  intros Hfuel Hm. unfold smart.
  rewrite (retry_paused m (fun e => tag e = "NetworkError") _ (fun _ => 0) 3 fuel intr w Hm)
    by (try assumption; intros k e He; unfold whileInput, recurs;
        rewrite He; reflexivity).
  reflexivity.
Qed.

Lemma smart_other_error_once_witness :
  smart 4 DocExamples.FetchError_tag (fail (A := string) TimeoutError) None initial_world
  = fail (A := string) TimeoutError None initial_world.
Proof.
  apply (smart_other_error_once 4 DocExamples.FetchError_tag (fail (A := string) TimeoutError)
           None initial_world).
  - lia.
  - intros e He. injection He as <-. discriminate.
Defined.

Lemma smart_network_error_four_runs_witness :
  smart 4 DocExamples.FetchError_tag unreliable None initial_world
  = executions_paused [0; 0; 0] unreliable None initial_world.
Proof.
  apply (smart_network_error_four_runs 4 DocExamples.FetchError_tag unreliable None initial_world).
  - lia.
  - intros intr w. eexists _, _, _. split; reflexivity.
Defined.

(** [healthCheck] repeated with [Schedule.recurs(n)] prints its line
    n + 1 times, leaves the clock where it was and succeeds. *)
Lemma repeat_loop_healthCheck {E} (n : nat) :
  forall fuel a w, n - a < fuel -> a <= n ->
  repeat_loop fuel a (healthCheck (E := E)) (recurs n) None w
  = (Success tt, [], mkWorld (clock w) (log w ++ List.repeat "Checking health..." (S (n - a)))).
Proof.
  induction fuel as [|fuel IH]; intros a w Hfuel Ha; [lia |].
  cbn [repeat_loop]. unfold healthCheck at 1, sync. unfold recurs at 1.
  destruct (Nat.ltb_spec a n) as [Hlt | Hge].
  - unfold flatMap at 1. unfold sleep, advance, console_log. cbn [clock log].
    rewrite Nat.add_0_r.
    change (fun (k : nat) (_ : unit) => if Nat.ltb k n then Continue 0 else Done)
      with (recurs (E := unit) n).
    rewrite (IH (S a)) by lia. cbn [clock log].
    replace (n - a) with (S (n - S a)) by lia.
    rewrite <- (app_assoc (log w)). reflexivity.
  - replace (n - a) with 0 by lia. reflexivity.
Qed.

Theorem repeat_healthCheck_lines {E} (n fuel : nat) (w : World) :
  n < fuel ->
  repeat_effect fuel (healthCheck (E := E)) (recurs n) None w
  = (Success tt, [], mkWorld (clock w) (log w ++ List.repeat "Checking health..." (S n))).
Proof.
  intro Hfuel. unfold repeat_effect.
  rewrite (repeat_loop_healthCheck n fuel 0 w) by lia.
  rewrite Nat.sub_0_r. reflexivity.
Qed.

Lemma repeat_healthCheck_lines_witness :
  runSyncLog (repeatTen 11) = List.repeat "Checking health..." 11.
Proof.
  unfold runSyncLog, repeatTen.
  rewrite (repeat_healthCheck_lines (E := Empty_set) 10 11 initial_world) by lia.
  reflexivity.
Defined.

(** ** Scopes *)

(** A finalizer added at the start of a scoped block runs when the scope
    closes, after the finalizers the rest of the block registered, on
    every exit path; it never changes the reported outcome, which is the
    block's outcome merged with the failures of the block's own
    finalizers, as for a scope without it. *)
Theorem finalizer_program_outcome {E A} (work : Effect E A) (intr : Interruption) (w : World) :
  finalizer_program_from work intr w =
  let '(ex, fs, w1) := work intr w in
  (merge_exit ex (finalizers_exit fs w1), [], console_log "Cleanup!" (close_scope fs w1)).
Proof.
  unfold finalizer_program_from, scoped, flatMap, addFinalizer. cbn beta iota.
  destruct (work intr w) as [[ex fs] w1].
  rewrite Laws.close_scope_app, Laws.finalizers_exit_app.
  destruct (finalizers_exit fs w1) as [[] | [] | d |]; reflexivity.
Qed.

(** Nested scopes: the inner scope closes, running its own cleanup after
    the inner block's finalizers, before anything of the outer block
    runs; the rest of the outer block runs only when the inner scope
    reports success (the inner block succeeded and none of its finalizers
    failed); the outer cleanup runs last, on every path. *)
Theorem outer_from_outcome {E} (inner_work outer_work : Effect E unit)
    (intr : Interruption) (w : World) :
  outer_from inner_work outer_work intr w =
  let '(ex1, f1, w1) := inner_work intr w in
  let ex1' := merge_exit ex1 (finalizers_exit f1 w1) in
  let w1' := console_log "Inner cleanup" (close_scope f1 w1) in
  match ex1' with
  | Success _ =>
      let '(ex2, f2, w2) := outer_work intr w1' in
      (merge_exit ex2 (finalizers_exit f2 w2), [], console_log "Outer cleanup" (close_scope f2 w2))
  | _ => (ex1', [], console_log "Outer cleanup" w1')
  end.
Proof.
  unfold outer_from, scoped, flatMap, addFinalizer. cbn beta iota.
  destruct (inner_work intr w) as [[ex1 f1] w1].
  rewrite Laws.close_scope_app, Laws.finalizers_exit_app.
  assert (Hin : match finalizers_exit f1 w1 with
                | Success _ =>
                    finalizers_exit
                      [run_finalizer (sync (fun w0 => (tt, console_log "Inner cleanup" w0)))]
                      (close_scope f1 w1)
                | ex => ex
                end = finalizers_exit f1 w1)
    by (destruct (finalizers_exit f1 w1) as [[] | [] | d |]; reflexivity).
  rewrite Hin.
  destruct (merge_exit ex1 (finalizers_exit f1 w1)) as [u | e | d |]; cbn beta iota;
    try reflexivity.
  destruct (outer_work intr _) as [[ex2 f2] w2].
  rewrite app_nil_r, Laws.close_scope_app, Laws.finalizers_exit_app.
  destruct (finalizers_exit f2 w2) as [[] | [] | d |]; reflexivity.
Qed.

(** The timed block, run without interruption, prints ["Timer started"]
    and then, when its scope closes, the time it slept; it succeeds with
    ["done"] after [d] milliseconds. *)
Theorem timed_for_uninterrupted {E} (d : nat) (w : World) :
  timed_for (E := E) d None w =
  (Success "done", [],
   mkWorld (clock w + d)
     (log w ++ ["Timer started"; "Timer ended: " ++ show_nat d ++ "ms"])).
Proof.
  unfold timed_for, timer, scoped, flatMap, acquireRelease, sync, sleep, advance,
    console_log.
  cbn - [String.append show_nat]. replace (clock w + d - clock w) with d by lia.
  rewrite <- app_assoc. reflexivity.
Qed.

(** Interrupted at [t] while it sleeps, the timed block is interrupted at
    [t], and the timer's release still runs, printing the time elapsed
    until the interruption. *)
Theorem timed_for_interrupted {E} (d t : nat) (w : World) :
  clock w <= t < clock w + d ->
  timed_for (E := E) d (Some t) w =
  (Interrupted, [],
   mkWorld t (log w ++ ["Timer started"; "Timer ended: " ++ show_nat (t - clock w) ++ "ms"])).
Proof.
  intro Ht.
  unfold timed_for, timer, scoped, flatMap, acquireRelease, sync, sleep, set_clock,
    console_log.
  cbn - [String.append show_nat]. destruct (Nat.leb_spec (clock w + d) t) as [Hle | _]; [lia |].
  cbn - [String.append show_nat]. replace (Nat.max (clock w) t) with t by lia.
  rewrite <- app_assoc. reflexivity.
Qed.

Lemma timed_for_interrupted_witness :
  timed_for (E := Empty_set) 1000 (Some 400) initial_world =
  (Interrupted, [], mkWorld 400 ["Timer started"; "Timer ended: 400ms"]).
Proof.
  apply (timed_for_interrupted (E := Empty_set) 1000 400 initial_world). cbn. lia.
Defined.

(** ** Interrupting a fiber *)

Lemma long_loop_interrupted {E} (n : nat) :
  forall i j w t, j < n -> clock w + 1000 * j < t < clock w + 1000 * S j ->
  long_loop (E := E) i n (Some t) w =
  (Interrupted, [],
   mkWorld t (log w ++ List.map (fun k => "Step " ++ show_nat k) (seq i (S j)))).
Proof.
  induction n as [|n IH]; intros i j w t Hj Ht; [lia |].
  cbn [long_loop]. unfold flatMap at 1, sync at 1, console_log at 1. cbn beta iota.
  unfold flatMap at 1, sleep at 1. cbn [clock log].
  destruct j as [|j].
  - destruct (Nat.leb_spec (clock w + 1000) t) as [Hle | _]; [lia |].
    unfold set_clock. cbn. replace (Nat.max (clock w) t) with t by lia. reflexivity.
  - destruct (Nat.leb_spec (clock w + 1000) t) as [_ | Hgt]; [| lia].
    unfold advance. cbn [clock log].
    rewrite (IH (S i) j) by (cbn [clock]; lia).
    cbn. rewrite <- app_assoc. reflexivity.
Qed.

(** Interrupting [longTask] [ms] milliseconds after forking it, with
    [k * 1000 < ms < (k + 1) * 1000] and [k < 10], lets it print
    ["Step 0"] to ["Step k"] (one step per second), and then the parent
    prints ["Fiber interrupted!"] at time [ms]. *)
Theorem interrupt_long_steps (k ms : nat) (w : World) :
  k < 10 -> k * 1000 < ms < S k * 1000 ->
  interrupt_long ms None w =
  (Success tt, [],
   mkWorld (clock w + ms)
     (log w ++ List.map (fun i => "Step " ++ show_nat i) (seq 0 (S k)) ++ ["Fiber interrupted!"])).
Proof.
  intros Hk Hms. unfold interrupt_long, fork_sleep_interrupt, longTask, flatMap.
  cbv beta iota zeta.
  rewrite (long_loop_interrupted 10 0 k w (clock w + ms)) by lia.
  unfold set_clock, sync, console_log. cbn - [String.append show_nat seq List.map].
  rewrite Nat.max_id, <- app_assoc. reflexivity.
Qed.

Lemma interrupt_long_steps_witness :
  runSyncLog (interrupt_long 3500)
  = ["Step 0"; "Step 1"; "Step 2"; "Step 3"; "Fiber interrupted!"].
Proof.
  unfold runSyncLog.
  rewrite (interrupt_long_steps 3 3500 initial_world) by lia.
  reflexivity.
Defined.

(** ** The HTTP handler *)

(** Once the request body is read, the handler answers 400
    ["Invalid request"] when the body does not decode, 422 with the
    error's message when [userService.create] rejects the data, and 201
    with the serialised user when it succeeds. *)
Theorem create_user_response_outcome {J R U} (req_json : Effect unit J)
    (decode : J -> option R) (create : R -> Effect InvalidUser U) (stringify : U -> string)
    (intr : Interruption) (w : World) (j : J) fs w1 :
  req_json intr w = (Success j, fs, w1) ->
  exit_of (create_user_response req_json decode create stringify intr w) =
  match decode j with
  | None => Success (mkResponse "Invalid request" 400)
  | Some p =>
      match exit_of (create p intr w1) with
      | Success u => Success (mkResponse (stringify u) 201)
      | Failure e => Success (mkResponse (invalid_message e) 422)
      | Die d => Die d
      | Interrupted => Interrupted
      end
  end.
Proof.
  intro Hreq.
  unfold create_user_response, create_user_program, catchTag, flatMap, mapError,
    succeed, fail.
  rewrite Hreq. unfold exit_of.
  destruct (decode j) as [p |]; cbn beta iota; [| reflexivity].
  destruct (create p intr w1) as [[ex2 f2] w2]. destruct ex2; reflexivity.
Qed.

Lemma create_user_response_outcome_witness :
  exit_of (create_user_response (J := nat) (R := nat) (U := nat)
             (succeed 7) (fun _ => None) (fun _ => succeed 1) (fun _ => "user")
             None initial_world)
  = Success (mkResponse "Invalid request" 400).
Proof.
  apply (create_user_response_outcome (J := nat) (R := nat) (U := nat)
           (succeed 7) (fun _ => None) (fun _ => succeed 1) (fun _ => "user")
           None initial_world 7 [] initial_world).
  reflexivity.
Defined.

(** The handler never fails with a [ParseError] or an [InvalidUserError]:
    the only expected failure it can report is the [UnknownException] of
    a body that cannot be read. *)
Theorem create_user_response_declares {J R U} (req_json : Effect unit J)
    (decode : J -> option R) (create : R -> Effect InvalidUser U) (stringify : U -> string) :
  declares HandlerError_tag ["UnknownException"]
    (create_user_response req_json decode create stringify).
Proof.
  intros intr w e H.
  unfold create_user_response, create_user_program, catchTag, flatMap, mapError, exit_of,
    succeed, fail in H.
  destruct (req_json intr w) as [[ex fs] w1]. destruct ex as [j | u | d |]; cbn in H.
  - destruct (decode j) as [p |]; cbn in H; [| discriminate].
    destruct (create p intr w1) as [[ex2 f2] w2]. destruct ex2; cbn in H; discriminate.
  - injection H as <-. left. reflexivity.
  - discriminate.
  - discriminate.
Qed.

(** ** Observability *)

(** [withLogging] reports the wrapped effect's outcome unchanged, with its
    finalizers: it prints ["Starting: name"] first, then
    ["Completed: name (Xms)"] with X the time the effect took when it
    succeeds, or the failure line when it fails, and nothing more after a
    defect or an interruption. *)
Theorem withLogging_outcome {E A} (show_error : E -> string) (m : Effect E A) (name : string)
    (intr : Interruption) (w : World) :
  withLogging show_error m name intr w =
  let '(ex, fs, w1) := m intr (console_log ("Starting: " ++ name) w) in
  match ex with
  | Success a =>
      (Success a, fs,
       console_log ("Completed: " ++ name ++ " (" ++ show_nat (clock w1 - clock w) ++ "ms)") w1)
  | Failure e => (Failure e, fs, console_log ("Failed: " ++ name ++ " " ++ show_error e) w1)
  | Die d => (Die d, fs, w1)
  | Interrupted => (Interrupted, fs, w1)
  end.
Proof.
  unfold withLogging, tapError, catchAll, flatMap, now, log_line, sync. cbn beta iota.
  destruct (m intr _) as [[ex fs] w1].
  destruct ex; cbn; rewrite ?app_nil_r; reflexivity.
Qed.

(** ** FlatMap chaining *)

(** Whatever user [getUser] yields, [userWithPosts] pairs it with two
    posts that all carry that user's id. *)
Theorem userWithPosts_posts_of_user {E} (getUser : Effect E User) (intr : Interruption)
    (w : World) (u : User) (posts : list Post) :
  exit_of (userWithPosts_from getUser intr w) = Success (u, posts) ->
  exit_of (getUser intr w) = Success u /\ length posts = 2 /\
  Forall (fun p => Examples.userId p = user_id u) posts.
Proof.
  unfold userWithPosts_from, flatMap, map, getUserPosts, succeed, exit_of.
  destruct (getUser intr w) as [[ex fs] w1]. destruct ex as [u' | e | d |]; cbn;
    try discriminate.
  intro H. injection H as <- <-. repeat constructor.
Qed.

Lemma userWithPosts_posts_of_user_witness :
  length (snd (mkUser 1 "Alice",
               [mkPost 101 "First post" 1; mkPost 102 "Second post" 1])) = 2.
Proof.
  destruct (userWithPosts_posts_of_user (E := Empty_set) (succeed (mkUser 1 "Alice"))
              None initial_world (mkUser 1 "Alice")
              [mkPost 101 "First post" 1; mkPost 102 "Second post" 1] eq_refl)
    as [_ [Hlen _]].
  exact Hlen.
Defined.

End Extras.
